(** * Thermal-Viscosity-Interface: the numeric pipeline and the lookup table

    A shallow embedding of [ThermalViscosityInterface.cpp]:

    - [double] is modelled by the real numbers [R] (the Standard Library's
      [Reals]), so [std::exp] is [exp] and [std::sqrt] is [sqrt].  Rounding,
      infinities and NaN are outside this model.
    - [int] and Eigen's [Index] are unbounded: loop counters are [nat], and
      the conversion of a [double] to [int] is truncation towards zero into
      [Z].
    - [std::vector<double>] and [Eigen::VectorXd] are lists;
      [Eigen::MatrixXd] is a record of its two dimensions and its
      coefficient storage in Eigen's default column-major order.  Reading or
      writing outside a container is undefined behaviour in C++ and is the
      outcome [Undefined] here.
    - [std::map<double, double>] is an association list kept sorted by key.
    - a function returns an [outcome]: a value, a thrown exception, or
      undefined behaviour.  Output parameters become results; what
      [averageAndDisplay] writes to [std::cout] is its result.

    Where a property depends on what the real-number model leaves out
    (rounding, NaN), module [Binary64] embeds the same code over IEEE 754
    binary64 numbers, the kernel's primitive floats, with [std::exp] as a
    parameter. *)

From Stdlib Require Import Floats.
From Stdlib Require Import Reals Lra Lia ZArith String.
From stdpp Require Import base list.

#[local] Set Warnings "-inexact-float".

Local Open Scope R_scope.

(** ** Numbers *)

Abbreviation double := R (only parsing).

#[global] Instance double_inhabited : Inhabited double := populate 0.

(** [static_cast<double>(n)] for an unsigned size [n]. *)
Definition size_to_double (n : nat) : double := INR n.

(** Conversion of a [double] to [int]: the fractional part is discarded
    (truncation towards zero).  [Int_part] is the floor. *)
Definition double_to_int (x : double) : Z :=
  if Rle_dec 0 x then Int_part x else (- Int_part (- x))%Z.

(** ** Outcomes of a call *)

Inductive exception : Type :=
  | runtime_error (what : string)
  | invalid_argument (what : string).

Inductive outcome (A : Type) : Type :=
  | Returns (a : A)
  | Throws (e : exception)
  | Undefined.

Arguments Returns {A} a.
Arguments Throws {A} e.
Arguments Undefined {A}.

#[global] Instance outcome_ret : MRet outcome := fun A a => Returns a.

#[global] Instance outcome_bind : MBind outcome := fun A B f m =>
  match m with
  | Returns a => f a
  | Throws e => Throws e
  | Undefined => Undefined
  end.

(** [for (int i = lo; i < lo + n; ++i) body], threading the variables the
    body assigns as the loop state. *)
Fixpoint for_loop {St : Type} (n lo : nat) (body : nat -> St -> outcome St)
    (s : St) : outcome St :=
  match n with
  | O => Returns s
  | S n' => s' ← body lo s; for_loop n' (S lo) body s'
  end.

(** ** Containers *)

(** [v[k]] on a [std::vector]: no bounds check. *)
Definition vector_at (v : list double) (k : nat) : outcome double :=
  match v !! k with
  | Some x => Returns x
  | None => Undefined
  end.

Abbreviation VectorXd := (list double) (only parsing).

(** [v.resize(n)]: the coefficients of the fresh storage are unspecified;
    the program assigns every one of them before it reads any. *)
Definition VectorXd_resize (n : nat) : VectorXd := replicate n 0.

(** [v(i) = x]. *)
Definition VectorXd_assign (v : VectorXd) (i : nat) (x : double)
    : outcome VectorXd :=
  if (i <? length v)%nat then Returns (<[i := x]> v) else Undefined.

(** [v.sum()]: zero for an empty vector. *)
Definition VectorXd_sum (v : VectorXd) : double := foldr Rplus 0 v.

Record MatrixXd : Type := mkMatrixXd {
  rows : nat;
  cols : nat;
  m_storage : list double
}.

(** Position of coefficient (i, j) in column-major storage. *)
Definition m_index (m : MatrixXd) (i j : nat) : nat := (i + j * rows m)%nat.

(** Representation invariant of an Eigen matrix: its storage holds exactly
    [rows * cols] coefficients. *)
Definition MatrixXd_wf (m : MatrixXd) : Prop :=
  length (m_storage m) = (rows m * cols m)%nat.

(** [m.resize(r, c)]: as for vectors, the new coefficients are unspecified. *)
Definition MatrixXd_resize (r c : nat) : MatrixXd :=
  {| rows := r; cols := c; m_storage := replicate (r * c) 0 |}.

(** [m(i, j)] read. *)
Definition MatrixXd_coeff (m : MatrixXd) (i j : nat) : outcome double :=
  if (i <? rows m)%nat && (j <? cols m)%nat then
    match m_storage m !! m_index m i j with
    | Some x => Returns x
    | None => Undefined
    end
  else Undefined.

(** [m(i, j) = x]. *)
Definition MatrixXd_assign (m : MatrixXd) (i j : nat) (x : double)
    : outcome MatrixXd :=
  if (i <? rows m)%nat && (j <? cols m)%nat
     && (m_index m i j <? length (m_storage m))%nat then
    Returns {| rows := rows m; cols := cols m;
               m_storage := <[m_index m i j := x]> (m_storage m) |}
  else Undefined.

(** The stored coefficient (i, j), as a total function for statements. *)
Definition entry (m : MatrixXd) (i j : nat) : double :=
  m_storage m !!! m_index m i j.

(** ** Configuration *)

Definition default_gain : double := 1.0.
Definition default_offset : double := 0.0.

Record SignalConfig : Type := { decayFactor : double }.
Definition SignalConfig_default : SignalConfig := {| decayFactor := 0.1 |}.

Record SignalConditioning : Type := { gain : double; offset : double }.
Definition SignalConditioning_default : SignalConditioning :=
  {| gain := default_gain; offset := default_offset |}.

(** ** The lookup table *)

Abbreviation table := (list (double * double)) (only parsing).

Definition thermal_to_viscosity : table :=
  [ (0.1, 1.0); (0.2, 1.1); (0.3, 1.2); (0.4, 1.3);
    (0.5, 1.4); (0.6, 1.5); (0.7, 1.6); (0.8, 1.7);
    (0.9, 1.8); (1.0, 1.9) ].

(** [m.find(k)] with [std::less<double>]: walk to the first entry whose key
    is not less than [k]; it is the match unless [k] is less than its key.
    [None] is [m.end()]. *)
Fixpoint map_find (k : double) (m : table) : option (double * double) :=
  match m with
  | [] => None
  | (k', v) :: m' =>
      if Rlt_dec k' k then map_find k m'
      else if Rlt_dec k k' then None
      else Some (k', v)
  end.

(** [m[k]]: the mapped value, inserting [k] with value 0.0 when it is
    absent.  Returns the value and the table afterwards. *)
Fixpoint map_subscript (k : double) (m : table) : double * table :=
  match m with
  | [] => (0.0, [(k, 0.0)])
  | (k', v) :: m' =>
      if Rlt_dec k' k then
        let '(x, m'') := map_subscript k m' in (x, (k', v) :: m'')
      else if Rlt_dec k k' then (0.0, (k, 0.0) :: (k', v) :: m')
      else (v, m)
  end.

(** [lookupViscosity]: the result and the global table afterwards. *)
Definition lookupViscosity (thermal_conductivity : double) (tbl : table)
    : outcome double * table :=
  match map_find thermal_conductivity tbl with
  | Some _ =>
      let '(v, tbl') := map_subscript thermal_conductivity tbl in
      (Returns v, tbl')
  | None => (Throws (invalid_argument "Invalid thermal conductivity value"), tbl)
  end.

(** [getViscosity]: as [lookupViscosity], with a sentinel instead of the
    exception. *)
Definition getViscosity (thermal_conductivity : double) (tbl : table)
    : outcome double * table :=
  match map_find thermal_conductivity tbl with
  | Some _ =>
      let '(v, tbl') := map_subscript thermal_conductivity tbl in
      (Returns v, tbl')
  | None => (Returns (-1.0), tbl)
  end.

(** ** The pipeline *)

(** The parsing loop of [getDataFromSerial] over the values read from the
    line: each is conditioned and pushed onto [data]. *)
Definition getDataFromSerial (values : list double) (data : list double)
    (conditioning : SignalConditioning) : list double :=
  foldl (fun data value =>
           let value := value * gain conditioning + offset conditioning in
           data ++ [value])
        data values.

Definition formatData (raw_data : list double) : outcome MatrixXd :=
  match raw_data with
  | [] => Throws (runtime_error "Raw data is empty")
  | _ :: _ =>
      let size := double_to_int (sqrt (size_to_double (length raw_data))) in
      let formatted_data := MatrixXd_resize (Z.to_nat size) (Z.to_nat size) in
      let k := 0%nat in
      '(formatted_data, _) ←
        for_loop (Z.to_nat size) 0 (fun i st =>
          for_loop (Z.to_nat size) 0 (fun j '(formatted_data, k) =>
            x ← vector_at raw_data k;
            formatted_data ← MatrixXd_assign formatted_data i j x;
            Returns (formatted_data, S k)) st)
          (formatted_data, k);
      Returns formatted_data
  end.

Definition averageAndDisplay (data : VectorXd) : outcome double :=
  let average := VectorXd_sum data / size_to_double (length data) in
  Returns average.

Definition curveFitting (data : MatrixXd) (config : SignalConfig)
    : outcome VectorXd :=
  if (rows data =? 0)%nat || (cols data =? 0)%nat then
    Throws (runtime_error "Data matrix is empty")
  else
    let result := VectorXd_resize (cols data) in
    for_loop (cols data) 0 (fun i result =>
      let sum := 0.0 in
      sum ← for_loop (rows data) 0 (fun j sum =>
               x ← MatrixXd_coeff data j i;
               Returns (sum + x * exp (- decayFactor config * INR j))) sum;
      VectorXd_assign result i (sum / size_to_double (rows data))) result.

(** The numeric part of [main]: conditioning, reshaping, the example lookup,
    the reduction and the average, stopping at the first exception. *)
Definition pipeline (values : list double) (conditioning : SignalConditioning)
    (config : SignalConfig) : outcome double :=
  let raw_data := getDataFromSerial values [] conditioning in
  formatted_data ← formatData raw_data;
  let example_thermal_conductivity := 0.1 in
  _ ← fst (lookupViscosity example_thermal_conductivity thermal_to_viscosity);
  result ← curveFitting formatted_data config;
  averageAndDisplay result.

(** ** Vocabulary of the statements *)

(** The matrix has dimension [size] and storage for all its coefficients. *)
Definition square_of (size : nat) (m : MatrixXd) : Prop :=
  rows m = size /\ cols m = size /\ length (m_storage m) = (size * size)%nat.

(** Coefficient (i, j) holds the sample at row-major index [i * size + j]. *)
Definition filled (raw_data : list double) (size : nat) (m : MatrixXd)
    (i j : nat) : Prop :=
  m_storage m !! (i + j * size)%nat = raw_data !! (i * size + j)%nat.

(** State of the fill loops of [formatData] before the assignment to
    coefficient (i, j): every coefficient before it in row-major order is
    filled, and [k] is the row-major index of (i, j). *)
Definition fill_invariant (raw_data : list double) (size i j : nat)
    (st : MatrixXd * nat) : Prop :=
  square_of size st.1 /\ st.2 = (i * size + j)%nat /\
  forall i' j', (i' < size)%nat -> (j' < size)%nat ->
    (i' * size + j' < i * size + j)%nat -> filled raw_data size st.1 i' j'.

(** The sum over the rows [j] of [f j], for a matrix with [n] rows. *)
Definition row_sum (n : nat) (f : nat -> double) : double :=
  match n with
  | O => 0
  | S n' => sum_f_R0 f n'
  end.

(** Weight of row [j] in the reduction. *)
Definition weight (decay : double) (j : nat) : double := exp (- decay * INR j).

(** The matrix with [d] added to coefficient (j, i). *)
Definition bump (m : MatrixXd) (j i : nat) (d : double) : MatrixXd :=
  {| rows := rows m; cols := cols m;
     m_storage := <[m_index m j i := entry m j i + d]> (m_storage m) |}.

Definition stored_keys (tbl : table) : list double := tbl.*1.

(** The order [std::map] keeps its entries in: keys strictly ascending. *)
Fixpoint table_sorted (tbl : table) : Prop :=
  match tbl with
  | [] => True
  | (k, _) :: tbl' => Forall (fun e => k < e.1) tbl' /\ table_sorted tbl'
  end.

(** The affine transform applied to each value read. *)
Definition condition (conditioning : SignalConditioning) (value : double)
    : double :=
  value * gain conditioning + offset conditioning.

(** ** The end-to-end example *)

Definition example_samples : list double := [1; 2; 3; 4; 5; 6; 7; 8; 9].

(** The matrix [[1,2,3],[4,5,6],[7,8,9]], stored by columns. *)
Definition example_matrix : MatrixXd :=
  {| rows := 3; cols := 3; m_storage := [1; 4; 7; 2; 5; 8; 3; 6; 9] |}.

(** The coefficients of a matrix, listed row by row. *)
Definition by_rows (m : MatrixXd) : list (list double) :=
  (fun i => (fun j => entry m i j) <$> seq 0 (cols m)) <$> seq 0 (rows m).

(** A column of two ones. *)
Definition ones_column : MatrixXd :=
  {| rows := 2; cols := 1; m_storage := [1; 1] |}.

(** ** Interactive configuration *)

(** What [std::stod] does with a line: it converts a prefix of it to a
    [double], or throws [std::invalid_argument] (no conversion could be
    performed) or [std::out_of_range]. *)
Inductive stod_result : Type :=
  | Converted (x : double)
  | NoConversion
  | OutOfRange.

(** How a prompting function ends.  [InputEnded] stands for standard input
    ending before a prompt is answered, which is not modelled further. *)
Inductive prompt_status : Type :=
  | Completed
  | Threw (e : exception)
  | ThrewOutOfRange
  | InputEnded.

Section Prompts.

(** [std::stod], a parameter of the model. *)
Variable stod : string -> stod_result.

(** [input.empty() ? dflt : std::stod(input)] inside
    [try { ... } catch (const std::invalid_argument&)
     { throw std::invalid_argument(what); }]: the value to assign, or the
    exception that leaves the function. *)
Definition parse_input (input : string) (dflt : double) (what : string)
    : double + prompt_status :=
  match input with
  | EmptyString => inl dflt
  | String _ _ =>
      match stod input with
      | Converted x => inl x
      | NoConversion => inr (Threw (invalid_argument what))
      | OutOfRange => inr ThrewOutOfRange
      end
  end.

(** [customSignalConditioning]: [cin] holds the lines still to be read.
    The result is how the function ended, the object behind the reference
    parameter and the lines left.  The text written to [std::cout] is not
    modelled. *)
Definition customSignalConditioning (cin : list string)
    (conditioning : SignalConditioning)
    : prompt_status * SignalConditioning * list string :=
  match cin with
  | [] => (InputEnded, conditioning, [])
  | input :: cin =>
      match parse_input input default_gain "Invalid input for gain" with
      | inr thrown => (thrown, conditioning, cin)
      | inl x =>
          let conditioning :=
            {| gain := x; offset := offset conditioning |} in
          match cin with
          | [] => (InputEnded, conditioning, [])
          | input :: cin =>
              match parse_input input default_offset
                      "Invalid input for offset" with
              | inr thrown => (thrown, conditioning, cin)
              | inl x =>
                  (Completed,
                   {| gain := gain conditioning; offset := x |}, cin)
              end
          end
      end
  end.

(** [customCompilerFeature], in the same way, on both of its reference
    parameters. *)
Definition customCompilerFeature (cin : list string) (config : SignalConfig)
    (conditioning : SignalConditioning)
    : prompt_status * (SignalConfig * SignalConditioning) * list string :=
  match cin with
  | [] => (InputEnded, (config, conditioning), [])
  | input :: cin =>
      match parse_input input (decayFactor config)
              "Invalid input for decay factor" with
      | inr thrown => (thrown, (config, conditioning), cin)
      | inl x =>
          let config := {| decayFactor := x |} in
          match cin with
          | [] => (InputEnded, (config, conditioning), [])
          | input :: cin =>
              match parse_input input default_gain "Invalid input for gain" with
              | inr thrown => (thrown, (config, conditioning), cin)
              | inl x =>
                  let conditioning :=
                    {| gain := x; offset := offset conditioning |} in
                  match cin with
                  | [] => (InputEnded, (config, conditioning), [])
                  | input :: cin =>
                      match parse_input input default_offset
                              "Invalid input for offset" with
                      | inr thrown => (thrown, (config, conditioning), cin)
                      | inl x =>
                          (Completed,
                           (config,
                            {| gain := gain conditioning; offset := x |}),
                           cin)
                      end
                  end
              end
          end
      end
  end.

End Prompts.

(** ** The reduction and the lookups over binary64 *)

Module Binary64.

(** Conversion of an [int] or a size to [double]. *)
Definition int_to_double (n : nat) : float :=
  PrimFloat.of_uint63 (Uint63.of_Z (Z.of_nat n)).

Record MatrixXd : Type := {
  rows : nat;
  cols : nat;
  m_storage : list float
}.

Definition m_index (m : MatrixXd) (i j : nat) : nat := (i + j * rows m)%nat.

(** [m(i, j)] read. *)
Definition MatrixXd_coeff (m : MatrixXd) (i j : nat) : outcome float :=
  if (i <? rows m)%nat && (j <? cols m)%nat then
    match m_storage m !! m_index m i j with
    | Some x => Returns x
    | None => Undefined
    end
  else Undefined.

(** [v.resize(n)] and [v(i) = x] on a vector. *)
Definition VectorXd_resize (n : nat) : list float := replicate n 0%float.

Definition VectorXd_assign (v : list float) (i : nat) (x : float)
    : outcome (list float) :=
  if (i <? length v)%nat then Returns (<[i := x]> v) else Undefined.

(** The matrix after [m(j, i) = m(j, i) + d]. *)
Definition bump (m : MatrixXd) (j i : nat) (d : float) : MatrixXd :=
  {| rows := rows m; cols := cols m;
     m_storage :=
       match m_storage m !! m_index m j i with
       | Some x => <[m_index m j i := (x + d)%float]> (m_storage m)
       | None => m_storage m
       end |}.

Record SignalConfig : Type := { decayFactor : float }.

Section Exp.

(** [std::exp], a parameter of the model. *)
Variable exp : float -> float.

Definition curveFitting (data : MatrixXd) (config : SignalConfig)
    : outcome (list float) :=
  if (rows data =? 0)%nat || (cols data =? 0)%nat then
    Throws (runtime_error "Data matrix is empty")
  else
    let result := VectorXd_resize (cols data) in
    for_loop (cols data) 0 (fun i result =>
      let sum := 0.0%float in
      sum ← for_loop (rows data) 0 (fun j sum =>
               x ← MatrixXd_coeff data j i;
               Returns (sum + x * exp (- decayFactor config * int_to_double j))%float)
             sum;
      VectorXd_assign result i (sum / int_to_double (rows data))%float) result.

End Exp.

Definition thermal_to_viscosity : list (float * float) :=
  [ (0.1, 1.0); (0.2, 1.1); (0.3, 1.2); (0.4, 1.3);
    (0.5, 1.4); (0.6, 1.5); (0.7, 1.6); (0.8, 1.7);
    (0.9, 1.8); (1.0, 1.9) ]%float.

(** [m.find(k)]: the comparisons are those of [std::less<double>], the
    [<] of binary64, which is false whenever an operand is NaN. *)
Fixpoint map_find (k : float) (m : list (float * float))
    : option (float * float) :=
  match m with
  | [] => None
  | (k', v) :: m' =>
      if PrimFloat.ltb k' k then map_find k m'
      else if PrimFloat.ltb k k' then None
      else Some (k', v)
  end.

(** [m[k]]. *)
Fixpoint map_subscript (k : float) (m : list (float * float))
    : float * list (float * float) :=
  match m with
  | [] => (0.0%float, [(k, 0.0%float)])
  | (k', v) :: m' =>
      if PrimFloat.ltb k' k then
        let '(x, m'') := map_subscript k m' in (x, (k', v) :: m'')
      else if PrimFloat.ltb k k' then
        (0.0%float, (k, 0.0%float) :: (k', v) :: m')
      else (v, m)
  end.

Definition lookupViscosity (thermal_conductivity : float)
    (tbl : list (float * float)) : outcome float * list (float * float) :=
  match map_find thermal_conductivity tbl with
  | Some _ =>
      let '(v, tbl') := map_subscript thermal_conductivity tbl in
      (Returns v, tbl')
  | None => (Throws (invalid_argument "Invalid thermal conductivity value"), tbl)
  end.

Definition getViscosity (thermal_conductivity : float)
    (tbl : list (float * float)) : outcome float * list (float * float) :=
  match map_find thermal_conductivity tbl with
  | Some _ =>
      let '(v, tbl') := map_subscript thermal_conductivity tbl in
      (Returns v, tbl')
  | None => (Returns (-1.0)%float, tbl)
  end.



End Binary64.

(** * Properties *)

(** ** Truncated square roots *)

Lemma sqrt_between (n : nat) :
  INR (Nat.sqrt n) <= sqrt (INR n) < INR (Nat.sqrt n) + 1.
Proof.
  destruct (Nat.sqrt_spec n (Nat.le_0_l n)) as [Hlo Hhi].
  set (s := Nat.sqrt n) in *.
  assert (Hs : 0 <= INR s) by apply pos_INR.
  assert (Hn : 0 <= INR n) by apply pos_INR.
  split.
  - rewrite <- (sqrt_square (INR s) Hs), <- mult_INR.
    apply sqrt_le_1; [apply pos_INR | exact Hn | now apply le_INR].
  - replace (INR s + 1) with (INR (S s)) by (rewrite S_INR; reflexivity).
    rewrite <- (sqrt_square (INR (S s)) (pos_INR _)), <- mult_INR.
    apply sqrt_lt_1; [exact Hn | apply pos_INR | now apply lt_INR].
Qed.

Lemma double_to_int_floor (x : double) (z : Z) :
  0 <= x -> IZR z <= x < IZR z + 1 -> double_to_int x = z.
Proof.
  intros Hx [Hlo Hhi]. unfold double_to_int.
  destruct (Rle_dec 0 x) as [_ | Hneg]; [| contradiction].
  unfold Int_part.
  rewrite <- (tech_up x (z + 1)); [lia | |]; rewrite plus_IZR; simpl; lra.
Qed.

Lemma double_to_int_sqrt (n : nat) :
  double_to_int (sqrt (size_to_double n)) = Z.of_nat (Nat.sqrt n).
Proof.
  unfold size_to_double. apply double_to_int_floor.
  - apply sqrt_pos.
  - rewrite <- INR_IZR_INZ. apply sqrt_between.
Qed.

Lemma sqrt_nat_pos (n : nat) : (1 <= n -> 1 <= Nat.sqrt n)%nat.
Proof.
  intros Hn. destruct (Nat.sqrt_spec n (Nat.le_0_l n)) as [_ Hhi].
  destruct (Nat.sqrt n); [simpl in Hhi; lia | lia].
Qed.

(** ** Loops *)

Lemma bind_Returns {A B : Type} (f : A -> outcome B) (m : outcome A) (a : A) :
  m = Returns a -> (m ≫= f) = f a.
Proof. intros ->. reflexivity. Qed.

(** Invariant rule: a body that returns and re-establishes the invariant
    makes the whole loop return with the invariant at the exit index. *)
Lemma for_loop_invariant {St : Type} (I : nat -> St -> Prop)
    (body : nat -> St -> outcome St) (n lo : nat) (s : St) :
  I lo s ->
  (forall i st, (lo <= i < lo + n)%nat -> I i st ->
     exists st', body i st = Returns st' /\ I (S i) st') ->
  exists s', for_loop n lo body s = Returns s' /\ I (lo + n)%nat s'.
Proof.
  revert lo s. induction n as [| n IH]; intros lo s Hinit Hstep.
  - exists s. rewrite Nat.add_0_r. split; [reflexivity | exact Hinit].
  - destruct (Hstep lo s ltac:(lia) Hinit) as (s1 & Hbody & HI1).
    destruct (IH (S lo) s1 HI1) as (s' & Hloop & HI').
    + intros i st Hi. apply Hstep. lia.
    + exists s'. simpl. rewrite (bind_Returns _ _ _ Hbody).
      split; [exact Hloop |].
      replace (lo + S n)%nat with (S lo + n)%nat by lia. exact HI'.
Qed.

(** ** Index arithmetic *)

Section Indices.
Local Open Scope nat_scope.

Lemma column_major_lt (size i j : nat) : i < size -> j < size -> i + j * size < size * size.
Proof.
  intros Hi Hj.
  assert ((j + 1) * size <= size * size) by (apply Nat.mul_le_mono_r; lia). lia.
Qed.

Lemma row_major_lt (size i j : nat) : i < size -> j < size -> i * size + j < size * size.
Proof. intros Hi Hj. rewrite Nat.add_comm. now apply column_major_lt. Qed.

Lemma column_major_inj (size i j i' j' : nat) :
  i < size -> i' < size -> i + j * size = i' + j' * size -> i = i' /\ j = j'.
Proof.
  intros Hi Hi' Heq.
  destruct (lt_eq_lt_dec j j') as [[Hlt | ->] | Hgt].
  - assert ((j + 1) * size <= j' * size) by (apply Nat.mul_le_mono_r; lia). lia.
  - lia.
  - assert ((j' + 1) * size <= j * size) by (apply Nat.mul_le_mono_r; lia). lia.
Qed.

Lemma row_major_inj (size i j i' j' : nat) :
  j < size -> j' < size -> i * size + j = i' * size + j' -> i = i' /\ j = j'.
Proof.
  intros Hj Hj' Heq.
  destruct (column_major_inj size j i j' i' Hj Hj') as [-> ->]; [lia | auto].
Qed.

End Indices.

(** ** Reshaping *)

Section FormatData.
Local Open Scope nat_scope.

Variable raw_data : list double.
Variable size : nat.
Hypothesis size_fits : size * size <= length raw_data.

(** One assignment [formatted_data(i, j) = raw_data[k++]]. *)
Lemma fill_step (i j : nat) (st : MatrixXd * nat) :
  i < size -> j < size ->
  fill_invariant raw_data size i j st ->
  exists st',
    (let '(formatted_data, k) := st in
     x ← vector_at raw_data k;
     formatted_data ← MatrixXd_assign formatted_data i j x;
     Returns (formatted_data, S k)) = Returns st' /\
    fill_invariant raw_data size i (S j) st'.
Proof.
  intros Hi Hj. destruct st as [fd k].
  intros ((Hr & Hc & Hlen) & Hk & Hfilled). simpl in Hr, Hc, Hlen, Hk.
  pose proof (row_major_lt size i j Hi Hj) as Hlt.
  assert (Hkn : k < length raw_data) by lia.
  destruct (lookup_lt_is_Some_2 raw_data k Hkn) as [x Hx].
  exists ({| rows := rows fd; cols := cols fd;
             m_storage := <[m_index fd i j := x]> (m_storage fd) |}, S k).
  split.
  - unfold vector_at. rewrite Hx. simpl.
    unfold MatrixXd_assign, m_index. rewrite Hr, Hc, Hlen.
    pose proof (column_major_lt size i j Hi Hj) as Hin.
    apply Nat.ltb_lt in Hi as ->. apply Nat.ltb_lt in Hj as ->.
    apply Nat.ltb_lt in Hin as ->. reflexivity.
  - split; [| split]; simpl.
    + unfold square_of; simpl. rewrite length_insert. auto.
    + lia.
    + intros i' j' Hi' Hj' Hbefore. unfold filled, m_index; simpl. rewrite Hr.
      destruct (decide (i' * size + j' = i * size + j)) as [Heq | Hne].
      * apply row_major_inj in Heq as [-> ->]; [| assumption | assumption].
        rewrite list_lookup_insert_eq
          by (rewrite Hlen; now apply column_major_lt).
        rewrite <- Hx, Hk. reflexivity.
      * rewrite list_lookup_insert_ne.
        -- apply Hfilled; [assumption | assumption | lia].
        -- intros Heq. apply column_major_inj in Heq as [-> ->]; auto.
Qed.

(** The inner loop fills row [i]. *)
Lemma fill_row (i : nat) (st : MatrixXd * nat) :
  i < size ->
  fill_invariant raw_data size i 0 st ->
  exists st',
    for_loop size 0 (fun j '(formatted_data, k) =>
      x ← vector_at raw_data k;
      formatted_data ← MatrixXd_assign formatted_data i j x;
      Returns (formatted_data, S k)) st = Returns st' /\
    fill_invariant raw_data size (S i) 0 st'.
Proof.
  intros Hi Hinit.
  destruct (for_loop_invariant (fill_invariant raw_data size i)
              (fun j '(formatted_data, k) =>
                 x ← vector_at raw_data k;
                 formatted_data ← MatrixXd_assign formatted_data i j x;
                 Returns (formatted_data, S k)) size 0 st Hinit)
    as (st' & Hrun & Hinv).
  - intros j s [_ Hj] Hs. apply fill_step; [exact Hi | lia | exact Hs].
  - exists st'. split; [exact Hrun |].
    destruct Hinv as (Hsq & Hk & Hfilled).
    split; [exact Hsq | split]; [lia |].
    intros i' j' Hi' Hj' Hbefore. apply Hfilled; [assumption | assumption | lia].
Qed.

(** Both loops: the matrix is filled in row-major order. *)
Lemma fill_matrix :
  exists formatted_data k,
    for_loop size 0 (fun i st =>
      for_loop size 0 (fun j '(formatted_data, k) =>
        x ← vector_at raw_data k;
        formatted_data ← MatrixXd_assign formatted_data i j x;
        Returns (formatted_data, S k)) st)
      (MatrixXd_resize size size, 0) = Returns (formatted_data, k) /\
    square_of size formatted_data /\
    forall i j, i < size -> j < size -> filled raw_data size formatted_data i j.
Proof.
  destruct (for_loop_invariant (fun i => fill_invariant raw_data size i 0)
              (fun i st =>
                 for_loop size 0 (fun j '(formatted_data, k) =>
                   x ← vector_at raw_data k;
                   formatted_data ← MatrixXd_assign formatted_data i j x;
                   Returns (formatted_data, S k)) st)
              size 0 (MatrixXd_resize size size, 0))
    as ([fd k] & Hrun & Hsq & _ & Hfilled).
  - split; [| split]; simpl.
    + unfold square_of; simpl. rewrite length_replicate. auto.
    + reflexivity.
    + intros i' j' _ _ Hbefore. lia.
  - intros i st [_ Hi] Hst. apply fill_row; [lia | exact Hst].
  - exists fd, k. split; [exact Hrun | split; [exact Hsq |]].
    intros i j Hi Hj. apply Hfilled; [assumption | assumption |].
    simpl. pose proof (row_major_lt size i j Hi Hj). lia.
Qed.

End FormatData.

Section Reshaped.
Local Open Scope nat_scope.

Lemma formatData_run (raw_data : list double) :
  raw_data <> [] ->
  exists formatted_data,
    formatData raw_data = Returns formatted_data /\
    square_of (Nat.sqrt (length raw_data)) formatted_data /\
    forall i j, i < Nat.sqrt (length raw_data) -> j < Nat.sqrt (length raw_data) ->
      filled raw_data (Nat.sqrt (length raw_data)) formatted_data i j.
Proof.
  intros Hne.
  destruct (Nat.sqrt_spec (length raw_data) (Nat.le_0_l _)) as [Hfits _].
  destruct (fill_matrix raw_data _ Hfits) as (fd & k & Hrun & Hsq & Hfilled).
  exists fd. split; [| split; assumption].
  destruct raw_data as [| x0 l]; [contradiction |].
  unfold formatData. rewrite double_to_int_sqrt, Nat2Z.id.
  cbv zeta. rewrite (bind_Returns _ _ _ Hrun). reflexivity.
Qed.

(** A square matrix is determined by its coefficients. *)
Lemma square_ext (size : nat) (m m' : MatrixXd) :
  square_of size m -> square_of size m' ->
  (forall i j, i < size -> j < size ->
     m_storage m !! (i + j * size) = m_storage m' !! (i + j * size)) ->
  m = m'.
Proof.
  destruct m as [r c st], m' as [r' c' st'].
  intros (Hr & Hc & Hlen) (Hr' & Hc' & Hlen') Hcoeff. simpl in *. subst.
  f_equal. apply list_eq. intros p.
  destruct (decide (p < size * size)) as [Hp | Hp].
  - assert (Hsz : size <> 0) by (intros ->; simpl in Hp; lia).
    pose proof (Nat.div_mod_eq p size) as Hdm.
    replace p with (p mod size + p / size * size) by lia.
    apply Hcoeff.
    + now apply Nat.mod_upper_bound.
    + apply Nat.Div0.div_lt_upper_bound. exact Hp.
  - rewrite !lookup_ge_None_2 by lia. reflexivity.
Qed.

Lemma filled_coeff (raw_data : list double) (size : nat) (m : MatrixXd) (i j : nat) :
  size * size <= length raw_data ->
  square_of size m -> i < size -> j < size -> filled raw_data size m i j ->
  exists x, raw_data !! (i * size + j) = Some x /\ MatrixXd_coeff m i j = Returns x.
Proof.
  intros Hfits (Hr & Hc & Hlen) Hi Hj Hfill.
  pose proof (row_major_lt size i j Hi Hj) as Hlt.
  destruct (lookup_lt_is_Some_2 raw_data (i * size + j)) as [x Hx]; [lia |].
  exists x. split; [exact Hx |].
  unfold MatrixXd_coeff, m_index. rewrite Hr, Hc.
  apply Nat.ltb_lt in Hi as ->. apply Nat.ltb_lt in Hj as ->. simpl.
  unfold filled in Hfill. rewrite Hfill, Hx. reflexivity.
Qed.

End Reshaped.

(** C2: for a non-empty sequence of N samples, [formatData] returns a square
    matrix of dimension [size] = floor(sqrt N); sample [k] lands at row
    [k / size], column [k mod size]; every coefficient is the sample at its
    row-major index; [size * size <= N]; and the samples from index
    [size * size] on are dropped: the matrix has [size * size] coefficients
    and is the one obtained from the first [size * size] samples alone. *)
Theorem formatData_reshape (raw_data : list double) :
  raw_data <> [] ->
  exists formatted_data,
    formatData raw_data = Returns formatted_data /\
    rows formatted_data = Nat.sqrt (length raw_data) /\
    cols formatted_data = Nat.sqrt (length raw_data) /\
    INR (rows formatted_data) <= sqrt (INR (length raw_data))
      < INR (rows formatted_data) + 1 /\
    (forall k, (k < rows formatted_data * rows formatted_data)%nat ->
       exists x, raw_data !! k = Some x /\
         MatrixXd_coeff formatted_data
           (k / rows formatted_data) (k mod rows formatted_data) = Returns x) /\
    (forall i j, (i < rows formatted_data)%nat -> (j < cols formatted_data)%nat ->
       exists x, raw_data !! (i * rows formatted_data + j)%nat = Some x /\
         MatrixXd_coeff formatted_data i j = Returns x) /\
    (rows formatted_data * cols formatted_data <= length raw_data)%nat /\
    length (m_storage formatted_data)
      = (rows formatted_data * cols formatted_data)%nat /\
    formatData (take (rows formatted_data * cols formatted_data) raw_data)
      = Returns formatted_data.
Proof.
  intros Hne.
  destruct (formatData_run raw_data Hne) as (fd & Hrun & Hsq & Hfilled).
  destruct (Nat.sqrt_spec (length raw_data) (Nat.le_0_l _)) as [Hfits _].
  set (size := Nat.sqrt (length raw_data)) in *.
  pose proof Hsq as (Hr & Hc & Hlen).
  exists fd. rewrite Hr, Hc.
  split; [exact Hrun |]. split; [reflexivity |]. split; [reflexivity |].
  split; [apply sqrt_between |].
  assert (Hcoeff : forall i j, (i < size)%nat -> (j < size)%nat ->
            exists x, raw_data !! (i * size + j)%nat = Some x /\
              MatrixXd_coeff fd i j = Returns x).
  { intros i j Hi Hj. apply filled_coeff; auto. }
  split; [| split; [exact Hcoeff | split; [exact Hfits | split; [exact Hlen |]]]].
  - intros k Hk.
    assert (Hsz : size <> 0%nat) by (intros Hz; rewrite Hz in Hk; simpl in Hk; lia).
    destruct (Hcoeff (k / size)%nat (k mod size)%nat) as (x & Hx & Hread).
    + apply Nat.Div0.div_lt_upper_bound. exact Hk.
    + now apply Nat.mod_upper_bound.
    + exists x. split; [| exact Hread].
      rewrite <- Hx. f_equal. pose proof (Nat.div_mod_eq k size). lia.
  - assert (Hpos : (1 <= size)%nat).
    { apply sqrt_nat_pos. destruct raw_data; [contradiction | simpl; lia]. }
    assert (Hlen' : length (take (size * size) raw_data) = (size * size)%nat).
    { rewrite length_take. lia. }
    destruct (formatData_run (take (size * size) raw_data))
      as (fd' & Hrun' & Hsq' & Hfilled').
    { intros Hnil. rewrite Hnil in Hlen'. simpl in Hlen'. nia. }
    rewrite Hlen', Nat.sqrt_square in Hsq', Hfilled'.
    rewrite Hrun'. f_equal.
    apply (square_ext size); [exact Hsq' | exact Hsq |].
    intros i j Hi Hj.
    rewrite (Hfilled' i j Hi Hj), (Hfilled i j Hi Hj).
    apply lookup_take_lt. now apply row_major_lt.
Qed.

(** C7: on the empty sequence [formatData] throws the runtime error
    "Raw data is empty" and returns no matrix. *)
Theorem formatData_empty :
  formatData [] = Throws (runtime_error "Raw data is empty") /\
  forall formatted_data, formatData [] <> Returns formatted_data.
Proof. split; [reflexivity | intros fd H; discriminate H]. Qed.

(** ** The weighted reduction *)

Lemma row_sum_S (n : nat) (f : nat -> double) :
  row_sum (S n) f = row_sum n f + f n.
Proof. destruct n as [| n]; simpl; lra. Qed.

Lemma row_sum_ext (n : nat) (f g : nat -> double) :
  (forall j, (j < n)%nat -> f j = g j) -> row_sum n f = row_sum n g.
Proof.
  induction n as [| n IH]; intros Hfg; [reflexivity |].
  rewrite !row_sum_S, IH, (Hfg n); [reflexivity | lia |].
  intros j Hj. apply Hfg. lia.
Qed.

Section CurveFitting.

Variable data : MatrixXd.
Variable config : SignalConfig.
Hypothesis data_wf : MatrixXd_wf data.

Lemma rectangle_lt (j i : nat) :
  (j < rows data -> i < cols data -> m_index data j i < length (m_storage data))%nat.
Proof.
  intros Hj Hi. rewrite data_wf. unfold m_index.
  assert ((i + 1) * rows data <= cols data * rows data)%nat
    by (apply Nat.mul_le_mono_r; lia).
  lia.
Qed.

Lemma MatrixXd_coeff_entry (j i : nat) :
  (j < rows data)%nat -> (i < cols data)%nat ->
  MatrixXd_coeff data j i = Returns (entry data j i).
Proof.
  intros Hj Hi. unfold MatrixXd_coeff, entry.
  rewrite (list_lookup_lookup_total_lt _ _ (rectangle_lt j i Hj Hi)).
  apply Nat.ltb_lt in Hj as ->. apply Nat.ltb_lt in Hi as ->. reflexivity.
Qed.

(** The inner loop accumulates the weighted sum of column [i]. *)
Lemma column_loop (i : nat) :
  (i < cols data)%nat ->
  for_loop (rows data) 0 (fun j sum =>
    x ← MatrixXd_coeff data j i;
    Returns (sum + x * exp (- decayFactor config * INR j))) 0.0
  = Returns (row_sum (rows data)
               (fun j => entry data j i * exp (- decayFactor config * INR j))).
Proof.
  intros Hi.
  destruct (for_loop_invariant
              (fun j sum => sum = row_sum j
                 (fun j => entry data j i * exp (- decayFactor config * INR j)))
              (fun j sum =>
                 x ← MatrixXd_coeff data j i;
                 Returns (sum + x * exp (- decayFactor config * INR j)))
              (rows data) 0 0.0) as (sum & Hrun & Hsum).
  - simpl. lra.
  - intros j sum [_ Hj] ->. eexists. split.
    + rewrite MatrixXd_coeff_entry by (assumption || lia). reflexivity.
    + rewrite row_sum_S. reflexivity.
  - subst sum. exact Hrun.
Qed.

Lemma curveFitting_run :
  (1 <= rows data)%nat -> (1 <= cols data)%nat ->
  exists result,
    curveFitting data config = Returns result /\
    length result = cols data /\
    forall i, (i < cols data)%nat ->
      result !! i =
        Some (row_sum (rows data)
                (fun j => entry data j i * exp (- decayFactor config * INR j))
              / INR (rows data)).
Proof.
  intros Hrows Hcols. unfold curveFitting.
  destruct (rows data =? 0)%nat eqn:Hr; [apply Nat.eqb_eq in Hr; lia |].
  destruct (cols data =? 0)%nat eqn:Hc; [apply Nat.eqb_eq in Hc; lia |].
  cbv zeta. simpl orb. cbv iota.
  destruct (for_loop_invariant
              (fun i (result : VectorXd) =>
                 length result = cols data /\
                 forall i', (i' < i)%nat ->
                   result !! i' =
                     Some (row_sum (rows data)
                             (fun j => entry data j i'
                                       * exp (- decayFactor config * INR j))
                           / INR (rows data)))
              (fun i result =>
                 sum ← for_loop (rows data) 0 (fun j sum =>
                          x ← MatrixXd_coeff data j i;
                          Returns (sum + x * exp (- decayFactor config * INR j)))
                        0.0;
                 VectorXd_assign result i (sum / size_to_double (rows data)))
              (cols data) 0 (VectorXd_resize (cols data)))
    as (result & Hrun & Hlen & Hres).
  - split; [apply length_replicate | intros i' Hi'; lia].
  - intros i result [_ Hi] [Hlen Hres]. simpl in Hi. cbv beta.
    rewrite (bind_Returns _ _ _ (column_loop i Hi)).
    unfold VectorXd_assign. rewrite Hlen.
    apply Nat.ltb_lt in Hi as Hi'. rewrite Hi'. clear Hi'.
    eexists. split; [reflexivity |]. cbv beta.
    split; [now rewrite length_insert |].
    intros i' Hi'. destruct (decide (i' = i)) as [-> | Hne].
    + rewrite list_lookup_insert_eq by lia. reflexivity.
    + rewrite list_lookup_insert_ne by auto. apply Hres. lia.
  - exists result. split; [exact Hrun | split; [exact Hlen | exact Hres]].
Qed.

End CurveFitting.

(** C1: for a matrix with at least one row and one column, [curveFitting]
    returns a vector with one entry per column, and entry [i] is the sum
    over the rows [j] of [data(j, i) * exp (- decayFactor * j)], divided by
    the number of rows (not by the sum of the weights). *)
Theorem curveFitting_weighted_sum (data : MatrixXd) (config : SignalConfig) :
  MatrixXd_wf data -> (1 <= rows data)%nat -> (1 <= cols data)%nat ->
  exists result,
    curveFitting data config = Returns result /\
    length result = cols data /\
    forall i, (i < cols data)%nat ->
      result !! i =
        Some (sum_f_R0
                (fun j => entry data j i * exp (- decayFactor config * INR j))
                (rows data - 1)
              / INR (rows data)).
Proof.
  intros Hwf Hrows Hcols.
  destruct (curveFitting_run data config Hwf Hrows Hcols)
    as (result & Hrun & Hlen & Hres).
  exists result. split; [exact Hrun | split; [exact Hlen |]].
  intros i Hi. rewrite (Hres i Hi).
  destruct (rows data) as [| n]; [lia |].
  simpl. rewrite Nat.sub_0_r. reflexivity.
Qed.

(** ** Weights *)

Lemma weight_zero (j : nat) : weight 0 j = 1.
Proof. unfold weight. rewrite Ropp_0, Rmult_0_l. apply exp_0. Qed.

Lemma weight_pos (decay : double) (j : nat) : 0 < weight decay j.
Proof. apply exp_pos. Qed.

Lemma weight_decreasing (decay : double) (j1 j2 : nat) :
  0 < decay -> (j1 < j2)%nat -> weight decay j2 < weight decay j1.
Proof.
  intros Hdecay Hlt. unfold weight. apply exp_increasing.
  apply lt_INR in Hlt. nra.
Qed.

(** C4: with [decayFactor = 0] every weight is 1 and [curveFitting] returns
    the unweighted mean of each column: the sum of the column divided by
    the number of rows. *)
Theorem curveFitting_no_decay (data : MatrixXd) (config : SignalConfig) :
  MatrixXd_wf data -> (1 <= rows data)%nat -> (1 <= cols data)%nat ->
  decayFactor config = 0 ->
  (forall j, exp (- decayFactor config * INR j) = 1) /\
  exists result,
    curveFitting data config = Returns result /\
    length result = cols data /\
    forall i, (i < cols data)%nat ->
      result !! i =
        Some (sum_f_R0 (fun j => entry data j i) (rows data - 1)
              / INR (rows data)).
Proof.
  intros Hwf Hrows Hcols Hzero.
  assert (Hweight : forall j, exp (- decayFactor config * INR j) = 1).
  { intros j. rewrite Hzero. apply weight_zero. }
  split; [exact Hweight |].
  destruct (curveFitting_run data config Hwf Hrows Hcols)
    as (result & Hrun & Hlen & Hres).
  exists result. split; [exact Hrun | split; [exact Hlen |]].
  intros i Hi. rewrite (Hres i Hi). do 2 f_equal.
  rewrite (row_sum_ext _ _ (fun j => entry data j i)).
  - destruct (rows data) as [| n]; [lia |].
    simpl. rewrite Nat.sub_0_r. reflexivity.
  - intros j _. rewrite Hweight. lra.
Qed.

(** ** Perturbing one coefficient *)






(** ** The lookup table *)

Lemma map_find_present (k v : double) (tbl : table) :
  table_sorted tbl -> (k, v) ∈ tbl -> map_find k tbl = Some (k, v).
Proof.
  induction tbl as [| [k' v'] tbl IH]; intros Hsorted Hin.
  - inversion Hin.
  - destruct Hsorted as [Hhead Hsorted]. simpl.
    apply elem_of_cons in Hin as [Heq | Hin].
    + injection Heq as <- <-.
      destruct (Rlt_dec k k) as [Hlt | _]; [lra |]. reflexivity.
    + rewrite Forall_forall in Hhead. specialize (Hhead _ Hin). simpl in Hhead.
      destruct (Rlt_dec k' k) as [_ | Hnlt]; [auto | contradiction].
Qed.

Lemma map_find_absent (k : double) (tbl : table) :
  k ∉ stored_keys tbl -> map_find k tbl = None.
Proof.
  unfold stored_keys. induction tbl as [| [k' v'] tbl IH]; intros Hnotin.
  - reflexivity.
  - simpl in *. apply not_elem_of_cons in Hnotin as [Hne Hnotin].
    destruct (Rlt_dec k' k) as [_ | Hnlt]; [auto |].
    destruct (Rlt_dec k k') as [_ | Hnlt']; [reflexivity | lra].
Qed.

Lemma map_subscript_present (k v : double) (tbl : table) :
  table_sorted tbl -> (k, v) ∈ tbl -> map_subscript k tbl = (v, tbl).
Proof.
  induction tbl as [| [k' v'] tbl IH]; intros Hsorted Hin.
  - inversion Hin.
  - destruct Hsorted as [Hhead Hsorted]. simpl.
    apply elem_of_cons in Hin as [Heq | Hin].
    + injection Heq as <- <-.
      destruct (Rlt_dec k k) as [Hlt | _]; [lra |]. reflexivity.
    + rewrite Forall_forall in Hhead. specialize (Hhead _ Hin). simpl in Hhead.
      destruct (Rlt_dec k' k) as [_ | Hnlt]; [| contradiction].
      rewrite (IH Hsorted Hin). reflexivity.
Qed.

Lemma thermal_to_viscosity_sorted : table_sorted thermal_to_viscosity.
Proof. simpl. repeat split; repeat constructor; simpl; lra. Qed.

Lemma thermal_to_viscosity_range :
  Forall (fun e => 1.0 <= e.2 <= 1.9) thermal_to_viscosity.
Proof. repeat constructor; simpl; lra. Qed.

Lemma lookupViscosity_present (k v : double) (tbl : table) :
  table_sorted tbl -> (k, v) ∈ tbl -> lookupViscosity k tbl = (Returns v, tbl).
Proof.
  intros Hsorted Hin. unfold lookupViscosity.
  rewrite (map_find_present k v tbl Hsorted Hin).
  rewrite (map_subscript_present k v tbl Hsorted Hin). reflexivity.
Qed.

Lemma getViscosity_present (k v : double) (tbl : table) :
  table_sorted tbl -> (k, v) ∈ tbl -> getViscosity k tbl = (Returns v, tbl).
Proof.
  intros Hsorted Hin. unfold getViscosity.
  rewrite (map_find_present k v tbl Hsorted Hin).
  rewrite (map_subscript_present k v tbl Hsorted Hin). reflexivity.
Qed.

(** For keys that are real numbers: on a key stored in the table,
    [lookupViscosity] and [getViscosity] both return the stored viscosity;
    on any other key [lookupViscosity] throws invalid_argument and
    [getViscosity] returns the sentinel -1.0 without throwing.  Either way
    the table is left as it was.  A NaN key is not a real number; the
    binary64 part at the end of this file covers it. *)
Theorem lookup_strict_and_sentinel (k : double) :
  (forall v, (k, v) ∈ thermal_to_viscosity ->
     lookupViscosity k thermal_to_viscosity
       = (Returns v, thermal_to_viscosity) /\
     getViscosity k thermal_to_viscosity
       = (Returns v, thermal_to_viscosity)) /\
  (k ∉ stored_keys thermal_to_viscosity ->
     lookupViscosity k thermal_to_viscosity
       = (Throws (invalid_argument "Invalid thermal conductivity value"),
          thermal_to_viscosity) /\
     getViscosity k thermal_to_viscosity
       = (Returns (-1.0), thermal_to_viscosity)).
Proof.
  split.
  - intros v Hin. split.
    + apply lookupViscosity_present; [apply thermal_to_viscosity_sorted | exact Hin].
    + apply getViscosity_present; [apply thermal_to_viscosity_sorted | exact Hin].
  - intros Hnotin. unfold lookupViscosity, getViscosity.
    rewrite (map_find_absent k _ Hnotin). split; reflexivity.
Qed.

(** For keys that are real numbers: every stored viscosity lies in
    [1.0, 1.9], so the sentinel is none of them, and [getViscosity] returns
    -1.0 exactly on the keys that are not stored in the table.  A NaN key is
    covered by the binary64 part at the end of this file. *)
Theorem sentinel_unambiguous :
  Forall (fun e => 1.0 <= e.2 <= 1.9 /\ e.2 <> -1.0) thermal_to_viscosity /\
  forall k,
    (getViscosity k thermal_to_viscosity).1 = Returns (-1.0)
    <-> k ∉ stored_keys thermal_to_viscosity.
Proof.
  split.
  - eapply Forall_impl; [apply thermal_to_viscosity_range |].
    intros e He. simpl in He. split; [exact He | lra].
  - intros k. split.
    + intros Hsentinel Hin. unfold stored_keys in Hin.
      apply list_elem_of_fmap in Hin as ([k' v] & -> & Hin). simpl in Hsentinel.
      rewrite (getViscosity_present _ _ _ thermal_to_viscosity_sorted Hin)
        in Hsentinel.
      pose proof thermal_to_viscosity_range as Hrange.
      rewrite Forall_forall in Hrange. specialize (Hrange _ Hin).
      simpl in Hsentinel, Hrange. injection Hsentinel as Hv. lra.
    + intros Hnotin. unfold getViscosity.
      rewrite (map_find_absent k _ Hnotin). reflexivity.
Qed.

(** ** The average *)

(** C3, as the code behaves: [averageAndDisplay] has no guard for an empty
    vector; on it the division by the size 0 is carried out and its result
    is printed, and no exception is thrown for any vector. *)
Theorem averageAndDisplay_no_guard :
  averageAndDisplay [] = Returns (VectorXd_sum [] / size_to_double 0) /\
  (forall e, averageAndDisplay [] <> Throws e) /\
  (forall data, exists average, averageAndDisplay data = Returns average).
Proof.
  split; [reflexivity |]. split.
  - intros e H. discriminate H.
  - intros data. eexists. reflexivity.
Qed.

Lemma averageAndDisplay_single (x : double) : averageAndDisplay [x] = Returns x.
Proof. unfold averageAndDisplay. simpl. f_equal. field. Qed.

(** ** The composed pipeline *)

Lemma getDataFromSerial_map (values data : list double)
    (conditioning : SignalConditioning) :
  getDataFromSerial values data conditioning
  = data ++ (condition conditioning <$> values).
Proof.
  unfold getDataFromSerial. revert data.
  induction values as [| value values IH]; intros data; simpl.
  - now rewrite app_nil_r.
  - rewrite IH, <- app_assoc. reflexivity.
Qed.

Lemma getDataFromSerial_nonempty (values : list double)
    (conditioning : SignalConditioning) :
  values <> [] -> getDataFromSerial values [] conditioning <> [].
Proof.
  intros Hne. rewrite getDataFromSerial_map.
  destruct values; [contradiction | discriminate].
Qed.

Lemma example_lookup :
  lookupViscosity 0.1 thermal_to_viscosity = (Returns 1.0, thermal_to_viscosity).
Proof.
  apply lookupViscosity_present; [apply thermal_to_viscosity_sorted |].
  apply list_elem_of_here.
Qed.

(** C9: for a non-empty sample sequence [formatData] returns a matrix with
    at least one row and one column, so [curveFitting] on it never throws
    (its "Data matrix is empty" branch is not reached) and the composed
    pipeline returns an average: only [formatData] can fail on an empty
    shape. *)
Theorem reshaped_matrix_not_empty (raw_data : list double)
    (config : SignalConfig) :
  raw_data <> [] ->
  (exists formatted_data,
     formatData raw_data = Returns formatted_data /\
     (1 <= rows formatted_data)%nat /\ (1 <= cols formatted_data)%nat /\
     (forall e, curveFitting formatted_data config <> Throws e) /\
     exists result, curveFitting formatted_data config = Returns result) /\
  forall conditioning,
    exists average, pipeline raw_data conditioning config = Returns average.
Proof.
  assert (Hstage : forall raw, raw <> [] ->
            exists formatted_data result,
              formatData raw = Returns formatted_data /\
              (1 <= rows formatted_data)%nat /\ (1 <= cols formatted_data)%nat /\
              curveFitting formatted_data config = Returns result).
  { intros raw Hne.
    destruct (formatData_run raw Hne) as (fd & Hrun & (Hr & Hc & Hlen) & _).
    assert (Hpos : (1 <= Nat.sqrt (length raw))%nat).
    { apply sqrt_nat_pos. destruct raw; [contradiction | simpl; lia]. }
    destruct (curveFitting_run fd config) as (result & Hfit & _);
      [unfold MatrixXd_wf; rewrite Hlen, Hr, Hc; reflexivity | lia | lia |].
    exists fd, result. repeat split; [exact Hrun | lia | lia | exact Hfit]. }
  intros Hne. split.
  - destruct (Hstage raw_data Hne) as (fd & result & Hrun & Hr & Hc & Hfit).
    exists fd. split; [exact Hrun |]. split; [exact Hr |]. split; [exact Hc |].
    split; [| exists result; exact Hfit].
    intros e He. rewrite Hfit in He. discriminate He.
  - intros conditioning.
    destruct (Hstage _ (getDataFromSerial_nonempty _ conditioning Hne))
      as (fd & result & Hrun & _ & _ & Hfit).
    unfold pipeline. cbv zeta.
    rewrite (bind_Returns _ _ _ Hrun), example_lookup. simpl.
    rewrite (bind_Returns _ _ _ Hfit). eexists. reflexivity.
Qed.

(** ** End-to-end example *)

Lemma example_conditioned :
  getDataFromSerial example_samples [] {| gain := 1; offset := 0 |}
  = example_samples.
Proof.
  rewrite getDataFromSerial_map. unfold example_samples, condition. simpl.
  repeat (apply (f_equal2 cons); [lra |]). reflexivity.
Qed.

Lemma example_reshaped : formatData example_samples = Returns example_matrix.
Proof.
  unfold formatData, example_samples.
  rewrite double_to_int_sqrt. reflexivity.
Qed.

Lemma example_reduced :
  curveFitting example_matrix {| decayFactor := 0 |} = Returns [4; 5; 6].
Proof.
  assert (Hweight : forall x, exp (- 0 * x) = 1).
  { intros x. rewrite Ropp_0, Rmult_0_l. apply exp_0. }
  unfold curveFitting, example_matrix. simpl.
  rewrite !Hweight. f_equal.
  repeat (apply (f_equal2 cons); [lra |]). reflexivity.
Qed.

Lemma example_average : averageAndDisplay [4; 5; 6] = Returns 5.
Proof. unfold averageAndDisplay. simpl. f_equal. lra. Qed.

(** C8: the samples 1..9 with gain 1, offset 0 and decay factor 0 are left
    unchanged by conditioning, reshape to [[1,2,3],[4,5,6],[7,8,9]], reduce
    to the column means [4,5,6], and average to 5. *)
Theorem end_to_end_example :
  getDataFromSerial example_samples [] {| gain := 1; offset := 0 |}
    = [1; 2; 3; 4; 5; 6; 7; 8; 9] /\
  (exists formatted_data,
     formatData [1; 2; 3; 4; 5; 6; 7; 8; 9] = Returns formatted_data /\
     rows formatted_data = 3%nat /\ cols formatted_data = 3%nat /\
     by_rows formatted_data = [[1; 2; 3]; [4; 5; 6]; [7; 8; 9]] /\
     curveFitting formatted_data {| decayFactor := 0 |} = Returns [4; 5; 6]) /\
  averageAndDisplay [4; 5; 6] = Returns 5 /\
  pipeline example_samples {| gain := 1; offset := 0 |} {| decayFactor := 0 |}
    = Returns 5.
Proof.
  split; [exact example_conditioned |]. split; [| split].
  - exists example_matrix.
    split; [exact example_reshaped |]. split; [reflexivity |].
    split; [reflexivity |]. split; [reflexivity | exact example_reduced].
  - exact example_average.
  - unfold pipeline. cbv zeta.
    rewrite example_conditioned, (bind_Returns _ _ _ example_reshaped).
    rewrite example_lookup. cbn [fst].
    rewrite (bind_Returns _ _ 1.0 eq_refl).
    rewrite (bind_Returns _ _ _ example_reduced). exact example_average.
Qed.

(** ** Instances *)

(** The reduction divides by the number of rows, which is not the weighted
    mean: on a column of ones with decay factor 1 it returns less than 1,
    the value of the mean normalised by the sum of the weights. *)
Lemma count_normalisation_example :
  exists x,
    curveFitting ones_column {| decayFactor := 1 |} = Returns [x] /\
    x < 1 /\
    (1 * weight 1 0 + 1 * weight 1 1) / (weight 1 0 + weight 1 1) = 1.
Proof.
  eexists. split; [reflexivity |].
  pose proof (weight_pos 1 0) as H0. pose proof (weight_pos 1 1) as H1.
  assert (Hw0 : weight 1 0 = 1).
  { unfold weight. simpl. rewrite Rmult_0_r. apply exp_0. }
  pose proof (weight_decreasing 1 0 1 ltac:(lra) ltac:(lia)) as Hdec.
  split; [unfold weight in *; simpl in *; lra | field; lra].
Qed.

Lemma example_matrix_wf : MatrixXd_wf example_matrix.
Proof. reflexivity. Qed.

Lemma curveFitting_weighted_sum_witness :
  MatrixXd_wf example_matrix /\
  (1 <= rows example_matrix)%nat /\ (1 <= cols example_matrix)%nat /\
  exists result,
    curveFitting example_matrix SignalConfig_default = Returns result /\
    length result = cols example_matrix /\
    forall i, (i < cols example_matrix)%nat ->
      result !! i =
        Some (sum_f_R0
                (fun j => entry example_matrix j i
                          * exp (- decayFactor SignalConfig_default * INR j))
                (rows example_matrix - 1)
              / INR (rows example_matrix)).
Proof.
  split; [reflexivity |]. split; [simpl; lia |]. split; [simpl; lia |].
  apply (curveFitting_weighted_sum example_matrix SignalConfig_default);
    [reflexivity | simpl; lia | simpl; lia].
Defined.

Lemma formatData_reshape_witness :
  example_samples <> [] /\
  exists formatted_data,
    formatData example_samples = Returns formatted_data /\
    rows formatted_data = 3%nat /\ cols formatted_data = 3%nat /\
    formatData (take 9 example_samples) = Returns formatted_data.
Proof.
  assert (Hne : example_samples <> []) by discriminate.
  split; [exact Hne |].
  destruct (formatData_reshape example_samples Hne)
    as (fd & Hrun & Hr & Hc & _ & _ & _ & _ & _ & Hdrop).
  exists fd. split; [exact Hrun |].
  split; [exact Hr |]. split; [exact Hc |].
  rewrite Hr, Hc in Hdrop. exact Hdrop.
Defined.

Lemma curveFitting_no_decay_witness :
  MatrixXd_wf example_matrix /\
  (1 <= rows example_matrix)%nat /\ (1 <= cols example_matrix)%nat /\
  decayFactor {| decayFactor := 0 |} = 0 /\
  (forall j, exp (- decayFactor {| decayFactor := 0 |} * INR j) = 1) /\
  exists result,
    curveFitting example_matrix {| decayFactor := 0 |} = Returns result /\
    length result = cols example_matrix /\
    forall i, (i < cols example_matrix)%nat ->
      result !! i =
        Some (sum_f_R0 (fun j => entry example_matrix j i)
                (rows example_matrix - 1)
              / INR (rows example_matrix)).
Proof.
  split; [reflexivity |]. split; [simpl; lia |]. split; [simpl; lia |].
  split; [reflexivity |].
  apply (curveFitting_no_decay example_matrix {| decayFactor := 0 |});
    [reflexivity | simpl; lia | simpl; lia | reflexivity].
Defined.


Lemma reshaped_matrix_not_empty_witness :
  example_samples <> [] /\
  (exists formatted_data,
     formatData example_samples = Returns formatted_data /\
     (1 <= rows formatted_data)%nat /\ (1 <= cols formatted_data)%nat /\
     (forall e, curveFitting formatted_data SignalConfig_default <> Throws e) /\
     exists result,
       curveFitting formatted_data SignalConfig_default = Returns result) /\
  forall conditioning,
    exists average,
      pipeline example_samples conditioning SignalConfig_default
      = Returns average.
Proof.
  assert (Hne : example_samples <> []) by discriminate.
  split; [exact Hne |].
  exact (reshaped_matrix_not_empty example_samples SignalConfig_default Hne).
Defined.

(** * Further properties of the stages *)

(** ** Sums *)




Lemma VectorXd_sum_app (v : VectorXd) (x : double) :
  VectorXd_sum (v ++ [x]) = VectorXd_sum v + x.
Proof.
  unfold VectorXd_sum. induction v as [| y v IH]; simpl; [lra |].
  rewrite IH. lra.
Qed.

Lemma VectorXd_sum_row_sum (v : VectorXd) :
  VectorXd_sum v = row_sum (length v) (fun i => v !!! i).
Proof.
  induction v as [| x v IH] using rev_ind; [reflexivity |].
  rewrite VectorXd_sum_app, length_app, Nat.add_comm. simpl length.
  rewrite row_sum_S, IH. f_equal.
  - apply row_sum_ext. intros i Hi.
    symmetry. apply lookup_total_app_l. exact Hi.
  - rewrite lookup_total_app_r by lia. now rewrite Nat.sub_diag.
Qed.

(** ** The reduction: when it throws *)

(** [curveFitting] throws exactly on a matrix without rows or without
    columns, and then with the message "Data matrix is empty". *)
Theorem curveFitting_throws_iff_empty (data : MatrixXd) (config : SignalConfig) :
  MatrixXd_wf data ->
  forall e,
    curveFitting data config = Throws e
    <-> e = runtime_error "Data matrix is empty"
        /\ (rows data = 0%nat \/ cols data = 0%nat).
Proof.
  intros Hwf e. split.
  - intros Hthrow.
    destruct (Nat.eq_dec (rows data) 0%nat) as [Hr | Hr];
      [| destruct (Nat.eq_dec (cols data) 0%nat) as [Hc | Hc]].
    + unfold curveFitting in Hthrow. rewrite Hr in Hthrow. simpl in Hthrow.
      injection Hthrow as <-. auto.
    + unfold curveFitting in Hthrow. rewrite Hc, orb_true_r in Hthrow.
      injection Hthrow as <-. auto.
    + destruct (curveFitting_run data config Hwf) as (result & Hrun & _);
        [lia | lia |].
      rewrite Hrun in Hthrow. discriminate Hthrow.
  - intros [-> Hempty]. unfold curveFitting.
    destruct Hempty as [-> | ->]; [reflexivity | now rewrite orb_true_r].
Qed.

Lemma curveFitting_throws_iff_empty_witness :
  MatrixXd_wf (MatrixXd_resize 0 3) /\
  (curveFitting (MatrixXd_resize 0 3) SignalConfig_default
     = Throws (runtime_error "Data matrix is empty")
   <-> runtime_error "Data matrix is empty" = runtime_error "Data matrix is empty"
       /\ (rows (MatrixXd_resize 0 3) = 0%nat
           \/ cols (MatrixXd_resize 0 3) = 0%nat)).
Proof.
  split; [reflexivity |].
  apply (curveFitting_throws_iff_empty (MatrixXd_resize 0 3)
           SignalConfig_default).
  reflexivity.
Defined.

(** ** Signal conditioning *)

(** [getDataFromSerial] keeps what [data] already holds and appends the
    values read, in order, each as [value * gain + offset]. *)
Theorem getDataFromSerial_appends (values data : list double)
    (conditioning : SignalConditioning) :
  take (length data) (getDataFromSerial values data conditioning) = data /\
  length (getDataFromSerial values data conditioning)
    = (length data + length values)%nat /\
  forall k value, values !! k = Some value ->
    getDataFromSerial values data conditioning !! (length data + k)%nat
    = Some (value * gain conditioning + offset conditioning).
Proof.
  rewrite getDataFromSerial_map. split; [| split].
  - rewrite take_app_length. reflexivity.
  - rewrite length_app, length_fmap. reflexivity.
  - intros k value Hk.
    rewrite lookup_app_r by lia.
    replace (length data + k - length data)%nat with k by lia.
    rewrite list_lookup_fmap, Hk. reflexivity.
Qed.

(** With the default gain 1.0 and offset 0.0 the values read reach the
    reshaping stage unchanged. *)
Theorem getDataFromSerial_default (values : list double) :
  getDataFromSerial values [] SignalConditioning_default = values.
Proof.
  rewrite getDataFromSerial_map, app_nil_l.
  induction values as [| value values IH]; [reflexivity |].
  rewrite fmap_cons, IH. f_equal.
  unfold condition, SignalConditioning_default, default_gain, default_offset.
  simpl. lra.
Qed.

(** ** The table is never written *)




(** ** Reshaping: what is kept and what is dropped *)

Lemma filled_entry (raw_data : list double) (size : nat) (m : MatrixXd)
    (i j : nat) :
  square_of size m -> filled raw_data size m i j ->
  entry m i j = raw_data !!! (i * size + j)%nat.
Proof.
  intros (Hr & _ & _) Hfilled. unfold entry, m_index. rewrite Hr.
  rewrite !list_lookup_total_alt. unfold filled in Hfilled.
  rewrite Hfilled. reflexivity.
Qed.






(** [formatData] drops fewer samples than two rows and a sample hold: at
    most [2 * rows] of them. *)
Theorem formatData_dropped_bound (raw_data : list double) :
  raw_data <> [] ->
  exists formatted_data,
    formatData raw_data = Returns formatted_data /\
    (length raw_data - rows formatted_data * cols formatted_data
     <= 2 * rows formatted_data)%nat.
Proof.
  intros Hne.
  destruct (formatData_run raw_data Hne) as (fd & Hrun & (Hr & Hc & _) & _).
  destruct (Nat.sqrt_spec (length raw_data) (Nat.le_0_l _)) as [_ Hnext].
  exists fd. split; [exact Hrun |]. rewrite Hr, Hc. lia.
Qed.

Lemma formatData_dropped_bound_witness :
  example_samples <> [] /\
  exists formatted_data,
    formatData example_samples = Returns formatted_data /\
    (length example_samples - rows formatted_data * cols formatted_data
     <= 2 * rows formatted_data)%nat.
Proof.
  assert (Hne : example_samples <> []) by discriminate.
  split; [exact Hne | exact (formatData_dropped_bound example_samples Hne)].
Defined.

(** ** The composed pipeline in closed form *)

Lemma pipeline_run (values : list double) (conditioning : SignalConditioning)
    (config : SignalConfig) :
  values <> [] ->
  pipeline values conditioning config
  = Returns
      (row_sum (Nat.sqrt (length values)) (fun i =>
         row_sum (Nat.sqrt (length values)) (fun j =>
           (condition conditioning <$> values)
             !!! (j * Nat.sqrt (length values) + i)%nat
           * exp (- decayFactor config * INR j))
         / INR (Nat.sqrt (length values)))
       / INR (Nat.sqrt (length values))).
Proof.
  intros Hne. unfold pipeline. cbv zeta.
  rewrite getDataFromSerial_map, app_nil_l.
  set (raw := condition conditioning <$> values).
  assert (Hlen : length raw = length values) by apply length_fmap.
  assert (Hraw : raw <> []).
  { intros Hnil. rewrite Hnil in Hlen. destruct values; [auto | discriminate]. }
  destruct (formatData_run raw Hraw) as (fd & Hrun & Hsq & Hfilled).
  rewrite Hlen in Hsq, Hfilled. set (size := Nat.sqrt (length values)) in *.
  pose proof Hsq as (Hr & Hc & Hst).
  assert (Hpos : (1 <= size)%nat).
  { apply sqrt_nat_pos. destruct values; [contradiction | simpl; lia]. }
  destruct (curveFitting_run fd config) as (result & Hfit & Hrl & Hres);
    [unfold MatrixXd_wf; rewrite Hst, Hr, Hc; reflexivity | lia | lia |].
  rewrite (bind_Returns _ _ _ Hrun), example_lookup. cbn [fst].
  rewrite (bind_Returns _ _ 1.0 eq_refl), (bind_Returns _ _ _ Hfit).
  unfold averageAndDisplay, size_to_double. f_equal.
  rewrite VectorXd_sum_row_sum, Hrl, Hc. f_equal.
  apply row_sum_ext. intros i Hi.
  assert (Hi' : (i < cols fd)%nat) by lia.
  rewrite (list_lookup_total_correct result i _ (Hres i Hi')), Hr.
  f_equal. apply row_sum_ext. intros j Hj. f_equal.
  apply (filled_entry raw size); [exact Hsq | now apply Hfilled].
Qed.

(** For a non-empty input the value printed by the pipeline is the mean
    over the [size] columns [i] of the decay-weighted column sums divided by
    [size], where [size] is the integer square root of the number of values
    and row [j], column [i] holds conditioned value number [j * size + i]. *)
Theorem pipeline_closed_form (values : list double)
    (conditioning : SignalConditioning) (config : SignalConfig) :
  values <> [] ->
  pipeline values conditioning config
  = Returns
      (row_sum (Nat.sqrt (length values)) (fun i =>
         row_sum (Nat.sqrt (length values)) (fun j =>
           (condition conditioning <$> values)
             !!! (j * Nat.sqrt (length values) + i)%nat
           * exp (- decayFactor config * INR j))
         / INR (Nat.sqrt (length values)))
       / INR (Nat.sqrt (length values))).
Proof. apply pipeline_run. Qed.

Lemma pipeline_closed_form_witness :
  example_samples <> [] /\
  pipeline example_samples SignalConditioning_default SignalConfig_default
  = Returns
      (row_sum (Nat.sqrt (length example_samples)) (fun i =>
         row_sum (Nat.sqrt (length example_samples)) (fun j =>
           (condition SignalConditioning_default <$> example_samples)
             !!! (j * Nat.sqrt (length example_samples) + i)%nat
           * exp (- decayFactor SignalConfig_default * INR j))
         / INR (Nat.sqrt (length example_samples)))
       / INR (Nat.sqrt (length example_samples))).
Proof.
  assert (Hne : example_samples <> []) by discriminate.
  split; [exact Hne |].
  exact (pipeline_closed_form example_samples SignalConditioning_default
           SignalConfig_default Hne).
Defined.





(** ** Without decay the pipeline is a plain mean *)








(** ** Interactive configuration *)

(** Answering every prompt with an empty line keeps the decay factor as it
    is, but sets gain and offset to the defaults 1.0 and 0.0 whatever they
    were before; [customSignalConditioning] does the same to its object. *)
Theorem prompts_on_empty_lines (stod : string -> stod_result)
    (cin : list string) (config : SignalConfig)
    (conditioning : SignalConditioning) :
  customCompilerFeature stod ("" :: "" :: "" :: cin)%string config conditioning
  = (Completed, (config, {| gain := 1.0; offset := 0.0 |}), cin) /\
  customSignalConditioning stod ("" :: "" :: cin)%string conditioning
  = (Completed, {| gain := 1.0; offset := 0.0 |}, cin).
Proof. destruct config. split; reflexivity. Qed.

(** When the three lines it reads are there and the decay-factor line is
    accepted, [customCompilerFeature] goes on exactly as
    [customSignalConditioning] does on the gain and offset lines. *)
Theorem customCompilerFeature_then_conditioning (stod : string -> stod_result)
    (input gain_line offset_line : string) (cin : list string)
    (config : SignalConfig) (conditioning : SignalConditioning) (x : double) :
  parse_input stod input (decayFactor config) "Invalid input for decay factor"
    = inl x ->
  customCompilerFeature stod (input :: gain_line :: offset_line :: cin)
    config conditioning
  = (let '(status, conditioning', cin') :=
       customSignalConditioning stod (gain_line :: offset_line :: cin)
         conditioning in
     (status, ({| decayFactor := x |}, conditioning'), cin')).
Proof.
  intros Hdecay. unfold customCompilerFeature, customSignalConditioning.
  rewrite Hdecay.
  destruct (parse_input stod gain_line default_gain "Invalid input for gain");
    [| reflexivity].
  destruct (parse_input stod offset_line default_offset
              "Invalid input for offset"); reflexivity.
Qed.

Lemma customCompilerFeature_then_conditioning_witness :
  parse_input (fun _ => Converted 2) "2" (decayFactor SignalConfig_default)
    "Invalid input for decay factor" = inl 2 /\
  customCompilerFeature (fun _ => Converted 2) ["2"; ""; "7"]%string
    SignalConfig_default SignalConditioning_default
  = (let '(status, conditioning', cin') :=
       customSignalConditioning (fun _ => Converted 2) [""; "7"]%string
         SignalConditioning_default in
     (status, ({| decayFactor := 2 |}, conditioning'), cin')).
Proof.
  split; [reflexivity |].
  apply (customCompilerFeature_then_conditioning (fun _ => Converted 2)
           "2" "" "7" [] SignalConfig_default SignalConditioning_default 2).
  reflexivity.
Defined.

(** A line that [std::stod] cannot convert ends [customSignalConditioning]
    with invalid_argument naming the field.  A rejected gain leaves the
    object untouched and the offset line unread; a rejected offset leaves
    the new gain already stored beside the old offset.  An out-of-range
    value is not turned into invalid_argument. *)
Theorem customSignalConditioning_rejects (stod : string -> stod_result)
    (gain_line offset_line : string) (cin : list string)
    (conditioning : SignalConditioning) :
  gain_line <> ""%string ->
  (stod gain_line = NoConversion ->
     customSignalConditioning stod (gain_line :: offset_line :: cin) conditioning
     = (Threw (invalid_argument "Invalid input for gain"), conditioning,
        offset_line :: cin)) /\
  (stod gain_line = OutOfRange ->
     customSignalConditioning stod (gain_line :: offset_line :: cin) conditioning
     = (ThrewOutOfRange, conditioning, offset_line :: cin)) /\
  (forall x, stod gain_line = Converted x ->
     offset_line <> ""%string -> stod offset_line = NoConversion ->
     customSignalConditioning stod (gain_line :: offset_line :: cin) conditioning
     = (Threw (invalid_argument "Invalid input for offset"),
        {| gain := x; offset := offset conditioning |}, cin)).
Proof.
  intros Hgain. unfold customSignalConditioning, parse_input.
  destruct gain_line as [| c gain_line]; [contradiction |].
  split; [| split].
  - intros ->. reflexivity.
  - intros ->. reflexivity.
  - intros x -> Hoffset Hreject.
    destruct offset_line as [| c' offset_line]; [contradiction |].
    rewrite Hreject. reflexivity.
Qed.

Lemma customSignalConditioning_rejects_witness :
  "abc"%string <> ""%string /\
  customSignalConditioning (fun _ => NoConversion) ["abc"; "1"]%string
    SignalConditioning_default
  = (Threw (invalid_argument "Invalid input for gain"),
     SignalConditioning_default, ["1"]%string).
Proof.
  assert (Hne : "abc"%string <> ""%string) by discriminate.
  split; [exact Hne |].
  apply (customSignalConditioning_rejects (fun _ => NoConversion)
           "abc" "1" [] SignalConditioning_default Hne).
  reflexivity.
Defined.

(** ** When the numeric stages fail *)

(** The composed numeric stages (conditioning loop, [formatData], the
    example lookup, [curveFitting], [averageAndDisplay]) throw exactly when
    they are given no value, and then the runtime error "Raw data is empty"
    of [formatData]; they never run into undefined behaviour.  The prompts
    and the port of [main], which can throw as well, are not part of
    [pipeline]. *)
Theorem pipeline_throws_iff_no_values (values : list double)
    (conditioning : SignalConditioning) (config : SignalConfig) :
  pipeline values conditioning config <> Undefined /\
  forall e,
    pipeline values conditioning config = Throws e
    <-> values = [] /\ e = runtime_error "Raw data is empty".
Proof.
  destruct values as [| value values].
  - split; [discriminate |]. intros e. split.
    + intros [= <-]. auto.
    + intros [_ ->]. reflexivity.
  - rewrite pipeline_run by discriminate.
    split; [discriminate |]. intros e. split; [discriminate |].
    intros [Hnil _]. discriminate Hnil.
Qed.

(** * The code over binary64 *)

(** ** An increment that is absorbed *)


(** ** A NaN key *)

(** C6, as the code behaves: NaN equals none of the stored keys, yet
    [find] stops at the first entry because no comparison with NaN is
    true, so [lookupViscosity] returns 1.0 instead of throwing and
    [getViscosity] returns 1.0 instead of the sentinel.  On ordinary keys
    the two lookups do what the comments say: the stored 0.1 gives 1.0, the
    absent 0.15 gives the exception and the sentinel. *)
Theorem lookup_nan_key :
  Forall (fun e => PrimFloat.eqb PrimFloat.nan e.1 = false)
    Binary64.thermal_to_viscosity /\
  Binary64.lookupViscosity PrimFloat.nan Binary64.thermal_to_viscosity
    = (Returns 1.0%float, Binary64.thermal_to_viscosity) /\
  Binary64.getViscosity PrimFloat.nan Binary64.thermal_to_viscosity
    = (Returns 1.0%float, Binary64.thermal_to_viscosity) /\
  Binary64.lookupViscosity 0.1%float Binary64.thermal_to_viscosity
    = (Returns 1.0%float, Binary64.thermal_to_viscosity) /\
  Binary64.lookupViscosity 0.15%float Binary64.thermal_to_viscosity
    = (Throws (invalid_argument "Invalid thermal conductivity value"),
       Binary64.thermal_to_viscosity) /\
  Binary64.getViscosity 0.15%float Binary64.thermal_to_viscosity
    = (Returns (-1.0)%float, Binary64.thermal_to_viscosity).
Proof.
  split; [repeat constructor |]. repeat split; reflexivity.
Qed.

(** C10, as the code behaves: every stored viscosity lies in [1.0, 1.9]
    and differs from the sentinel, but [getViscosity] does not return the
    sentinel on the key NaN, which is not stored: it returns 1.0, as it
    does for the stored key 0.1. *)
Theorem sentinel_nan_key :
  Forall (fun e => PrimFloat.leb 1.0 e.2 = true /\ PrimFloat.leb e.2 1.9 = true
                   /\ PrimFloat.eqb e.2 (-1.0) = false)
    Binary64.thermal_to_viscosity /\
  Forall (fun e => PrimFloat.eqb PrimFloat.nan e.1 = false)
    Binary64.thermal_to_viscosity /\
  (Binary64.getViscosity PrimFloat.nan Binary64.thermal_to_viscosity).1
    = Returns 1.0%float /\
  (Binary64.getViscosity PrimFloat.nan Binary64.thermal_to_viscosity).1
    <> Returns (-1.0)%float /\
  (Binary64.getViscosity 0.1%float Binary64.thermal_to_viscosity).1
    = Returns 1.0%float.
Proof.
  split; [repeat constructor |]. split; [repeat constructor |].
  split; [reflexivity |]. split; [| reflexivity].
  intros H. discriminate H.
Qed.
